(** * get_instances.py: ECHONET Lite instance-list discovery

    A shallow embedding of the script [get_instances.py] and the properties
    of its request frame, its socket set-up and its timed receive loop.

    The script talks to the operating system (a UDP socket and the wall
    clock).  It is embedded as a program in a small state-and-exception
    monad over a [State] that holds the socket, the clock, the datagrams
    the network is going to deliver, the system calls made so far and the
    lines printed so far.

    What the model takes for granted:
    - time is counted in whole milliseconds ([5.0] seconds is [5000]), and
      only a blocking [recvfrom] lets the clock advance: the statements of
      the script themselves take no time and a timeout runs out on the
      dot, where a machine starts a receive attempt a little after the
      loop test and lets its timer run a little late. Times in the
      statements below are therefore exact where a machine adds that
      overhead;
    - creating, configuring and binding the socket and sending on it
      succeed; a failing [recvfrom] is an event of the network ([Fails]);
    - the socket is a datagram socket with the usual behaviour on a short
      buffer: the datagram is cut to the buffer and the excess is dropped;
    - exceptions are those of Python 3.10 and later on Linux: a failure of
      [recvfrom] with [errno] [ETIMEDOUT] is raised as [TimeoutError], the
      class that [socket.timeout] names; one with [EINTR], or with [EAGAIN]
      under a timeout, is retried inside the call and never reaches the
      script; any other is raised as an [OSError] with its [errno]. *)

From Stdlib Require Import ZArith NArith List String Ascii Bool Lia.
From Stdlib Require Import Strings.Byte.
From Equations Require Import Equations.
Import ListNotations.

Local Open Scope string_scope.
Local Open Scope list_scope.
Local Open Scope Z_scope.

(* ===================================================================== *)
(** ** Bytes and hexadecimal text ([bytes.fromhex], [bytes.hex]) *)
(* ===================================================================== *)

Definition bytes := list byte.

Module Hex.

(** ASCII white space, as [bytes.fromhex] skips it between two bytes:
    space, [\t], [\n], [\v], [\f], [\r]. *)
Definition is_space (c : ascii) : bool :=
  let n := N_of_ascii c in
  (n =? 32)%N || ((9 <=? n)%N && (n <=? 13)%N).

(** Value of one hexadecimal digit, either case. *)
Definition digit_value (c : ascii) : option N :=
  let n := N_of_ascii c in
  if (48 <=? n)%N && (n <=? 57)%N then Some (n - 48)%N
  else if (97 <=? n)%N && (n <=? 102)%N then Some (n - 87)%N
  else if (65 <=? n)%N && (n <=? 70)%N then Some (n - 55)%N
  else None.

(** [bytes.fromhex(s)]: two digits per byte, white space allowed between
    bytes only; [None] stands for the [ValueError] Python raises. *)
Fixpoint fromhex (s : string) : option bytes :=
  match s with
  | EmptyString => Some []
  | String c rest =>
      if is_space c then fromhex rest
      else
        match rest with
        | EmptyString => None
        | String d rest' =>
            match digit_value c, digit_value d with
            | Some top, Some bot =>
                match Byte.of_N (16 * top + bot), fromhex rest' with
                | Some b, Some bs => Some (b :: bs)
                | _, _ => None
                end
            | _, _ => None
            end
        end
  end.

(** One lower-case hexadecimal digit. *)
Definition digit_char (n : N) : ascii :=
  if (n <? 10)%N then ascii_of_N (48 + n) else ascii_of_N (87 + n).

(** [b.hex()]: two lower-case digits per byte, no separator. *)
Fixpoint hex (b : bytes) : string :=
  match b with
  | [] => EmptyString
  | x :: xs =>
      let n := Byte.to_N x in
      String (digit_char (n / 16)) (String (digit_char (n mod 16)) (hex xs))
  end.

End Hex.

(* ===================================================================== *)
(** ** Module-level constants of the script *)
(* ===================================================================== *)

Definition IP : string := "192.168.0.255".
Definition PORT : Z := 3610.
Definition pkt : string := "1081 0000 0ef001 0ef001 62 01 d6 00".

(** The fields of an ECHONET Lite frame in wire order, as the comment
    [# get instance list] and the grouping of [pkt] lay them out. *)
Record frame := {
  EHD1 : byte;
  EHD2 : byte;
  TID  : byte * byte;
  SEOJ : byte * byte * byte;
  DEOJ : byte * byte * byte;
  ESV  : byte;
  OPC  : byte;
  EPC  : byte;
  PDC  : byte
}.

Definition frame_bytes (f : frame) : bytes :=
  let '(t1, t2) := TID f in
  let '(s1, s2, s3) := SEOJ f in
  let '(d1, d2, d3) := DEOJ f in
  [EHD1 f; EHD2 f; t1; t2; s1; s2; s3; d1; d2; d3; ESV f; OPC f; EPC f; PDC f].

(* ===================================================================== *)
(** ** The socket, the network and the state of a run *)
(* ===================================================================== *)

(** An address as Python's [socket] module gives it: [(host, port)]. *)
Definition endpoint : Type := string * Z.

Inductive family := AF_INET.
Inductive socktype := SOCK_DGRAM.
Inductive level := SOL_SOCKET.
Inductive sockopt := SO_REUSEADDR | SO_BROADCAST.

(** Exceptions the script can meet. [socket_timeout] is [socket.timeout],
    that is [TimeoutError]; [OSError] is any other failure of a socket call,
    with its [errno]; [ValueError] is what [bytes.fromhex] raises on
    malformed text. *)
Inductive exn :=
| socket_timeout
| OSError (errno : Z)
| ValueError.

Definition EINTR : Z := 4.
Definition EBADF : Z := 9.
Definition EAGAIN : Z := 11.
Definition ETIMEDOUT : Z := 110.

(** The exception Python raises for a failed system call: the subclass of
    [OSError] its [errno] selects, of which the script tells only
    [TimeoutError] apart. *)
Definition os_error (errno : Z) : exn :=
  if errno =? ETIMEDOUT then socket_timeout else OSError errno.

(** The socket object [sock]. *)
Record socket := {
  sk_family    : family;
  sk_type      : socktype;
  so_reuseaddr : bool;
  so_broadcast : bool;
  sk_local     : option endpoint;   (* address given to [bind] *)
  sk_timeout   : option Z;          (* [None]: blocking, no timeout *)
  sk_closed    : bool
}.

(** What the network hands to the socket, in the order it is handed over:
    a datagram arriving at a time from a sender, or a failure, with its
    [errno], of the system call behind the [recvfrom] that is waiting at
    that time or comes next. *)
Inductive event :=
| Arrives (when : Z) (from : endpoint) (data : bytes)
| Fails (when : Z) (errno : Z).

Definition event_time (ev : event) : Z :=
  match ev with
  | Arrives when _ _ => when
  | Fails when _ => when
  end.

(** The calls made on the socket, recorded in program order. A [recvfrom]
    entry records the buffer size, the timeout in force and the time at which
    the attempt starts. *)
Inductive call :=
| Call_socket (f : family) (t : socktype)
| Call_setsockopt (l : level) (o : sockopt) (v : Z)
| Call_bind (a : endpoint)
| Call_sendto (data : bytes) (a : endpoint)
| Call_settimeout (t : option Z)
| Call_recvfrom (bufsize : nat) (tmo : option Z) (when : Z)
| Call_close.

(** One printed line: the arguments of [print(addr, msg.hex())]. *)
Definition line : Type := endpoint * string.

Record State := {
  sock   : option socket;
  now    : Z;
  inbox  : list event;
  trace  : list call;
  stdout : list line
}.

Definition set_sock (sk : socket) (s : State) : State :=
  {| sock := Some sk; now := now s; inbox := inbox s;
     trace := trace s; stdout := stdout s |}.

Definition log (c : call) (s : State) : State :=
  {| sock := sock s; now := now s; inbox := inbox s;
     trace := trace s ++ [c]; stdout := stdout s |}.

Definition advance (t : Z) (s : State) : State :=
  {| sock := sock s; now := t; inbox := inbox s;
     trace := trace s; stdout := stdout s |}.

Definition deliver (t : Z) (rest : list event) (s : State) : State :=
  {| sock := sock s; now := t; inbox := rest;
     trace := trace s; stdout := stdout s |}.

Definition emit (l : line) (s : State) : State :=
  {| sock := sock s; now := now s; inbox := inbox s;
     trace := trace s; stdout := stdout s ++ [l] |}.

(** State at the start of the process: no socket yet, nothing printed. *)
Definition boot (t0 : Z) (net : list event) : State :=
  {| sock := None; now := t0; inbox := net; trace := []; stdout := [] |}.

(* ===================================================================== *)
(** ** The monad of the script: state, exceptions, blocking for ever *)
(* ===================================================================== *)

Inductive result (A : Type) :=
| Ret (a : A)          (* the statement completes *)
| Raise (e : exn)      (* it raises *)
| Hang.                (* it blocks and never returns *)
Arguments Ret {A} a.
Arguments Raise {A} e.
Arguments Hang {A}.

Definition M (A : Type) : Type := State -> result A * State.

Definition ret {A} (a : A) : M A := fun s => (Ret a, s).
Definition raise {A} (e : exn) : M A := fun s => (Raise e, s).

Definition bind {A B} (m : M A) (k : A -> M B) : M B :=
  fun s =>
    match m s with
    | (Ret a, s') => k a s'
    | (Raise e, s') => (Raise e, s')
    | (Hang, s') => (Hang, s')
    end.

Notation "x <- c1 ;; c2" := (bind c1 (fun x => c2))
  (at level 61, c1 at next level, right associativity).
Notation "c1 ;; c2" := (bind c1 (fun _ => c2))
  (at level 61, right associativity).

(** A call on the socket object: [OSError(EBADF)] when there is no open
    socket. *)
Definition with_sock {A} (f : socket -> M A) : M A :=
  fun s =>
    match sock s with
    | Some sk => if sk_closed sk then (Raise (OSError EBADF), s) else f sk s
    | None => (Raise (OSError EBADF), s)
    end.

(* ===================================================================== *)
(** ** The library calls the script makes *)
(* ===================================================================== *)

Definition socket_socket (f : family) (t : socktype) : M unit :=
  fun s =>
    (Ret tt,
     set_sock {| sk_family := f; sk_type := t;
                 so_reuseaddr := false; so_broadcast := false;
                 sk_local := None; sk_timeout := None; sk_closed := false |}
              (log (Call_socket f t) s)).

Definition setsockopt (l : level) (o : sockopt) (v : Z) : M unit :=
  with_sock (fun sk s =>
    let on := negb (v =? 0) in
    let sk' :=
      match o with
      | SO_REUSEADDR =>
          {| sk_family := sk_family sk; sk_type := sk_type sk;
             so_reuseaddr := on; so_broadcast := so_broadcast sk;
             sk_local := sk_local sk; sk_timeout := sk_timeout sk;
             sk_closed := sk_closed sk |}
      | SO_BROADCAST =>
          {| sk_family := sk_family sk; sk_type := sk_type sk;
             so_reuseaddr := so_reuseaddr sk; so_broadcast := on;
             sk_local := sk_local sk; sk_timeout := sk_timeout sk;
             sk_closed := sk_closed sk |}
      end in
    (Ret tt, set_sock sk' (log (Call_setsockopt l o v) s))).

Definition sock_bind (a : endpoint) : M unit :=
  with_sock (fun sk s =>
    (Ret tt,
     set_sock {| sk_family := sk_family sk; sk_type := sk_type sk;
                 so_reuseaddr := so_reuseaddr sk;
                 so_broadcast := so_broadcast sk;
                 sk_local := Some a; sk_timeout := sk_timeout sk;
                 sk_closed := sk_closed sk |}
              (log (Call_bind a) s))).

Definition sendto (data : bytes) (a : endpoint) : M unit :=
  with_sock (fun _ s => (Ret tt, log (Call_sendto data a) s)).

(** [sock.settimeout(t)] for [None] or a positive [t]. *)
Definition settimeout (t : option Z) : M unit :=
  with_sock (fun sk s =>
    (Ret tt,
     set_sock {| sk_family := sk_family sk; sk_type := sk_type sk;
                 so_reuseaddr := so_reuseaddr sk;
                 so_broadcast := so_broadcast sk;
                 sk_local := sk_local sk; sk_timeout := t;
                 sk_closed := sk_closed sk |}
              (log (Call_settimeout t) s))).

Definition sock_close : M unit :=
  fun s =>
    match sock s with
    | Some sk =>
        (Ret tt,
         set_sock {| sk_family := sk_family sk; sk_type := sk_type sk;
                     so_reuseaddr := so_reuseaddr sk;
                     so_broadcast := so_broadcast sk;
                     sk_local := sk_local sk; sk_timeout := sk_timeout sk;
                     sk_closed := true |}
                  (log Call_close s))
    | None => (Raise (OSError EBADF), s)
    end.

Definition time_time : M Z := fun s => (Ret (now s), s).

Definition print (l : line) : M unit := fun s => (Ret tt, emit l s).

Definition bytes_fromhex (text : string) : M bytes :=
  match Hex.fromhex text with
  | Some b => ret b
  | None => raise ValueError
  end.

(** Does an event at time [when] reach a receive attempt that starts at [t]
    under timeout [tmo]? Without a timeout the attempt waits as long as it
    takes. *)
Definition in_time (tmo : option Z) (t when : Z) : bool :=
  match tmo with
  | None => true
  | Some d => when <? t + d
  end.

(** Failures a receive attempt under timeout [tmo] does not report but
    retries: an interrupted call, and, when the socket has a timeout, a
    wake-up with nothing to read. *)
Definition retried (tmo : option Z) (errno : Z) : bool :=
  (errno =? EINTR) ||
  match tmo with
  | Some d => (0 <? d) && (errno =? EAGAIN)
  | None => false
  end.

(** The wait of one receive attempt that started at [start], at time [t],
    with the events [q] still to come: the result of the attempt, the time
    at which it is over and the events left. The attempt takes the next
    event if it comes before the timeout, counted from [start], runs out,
    and is over when that event has come (at once when it is already
    queued). A datagram longer than [bufsize] is cut to [bufsize] bytes and
    the rest of it is dropped. A failure is reported, or retried within the
    same attempt. When nothing comes in time the attempt is over at the end
    of the timeout with [socket.timeout]; with no timeout and nothing to
    come, it blocks for ever. *)
Fixpoint recv_wait (bufsize : nat) (tmo : option Z) (start t : Z)
    (q : list event) : result (bytes * endpoint) * Z * list event :=
  match q with
  | [] =>
      match tmo with
      | Some d => (Raise socket_timeout, start + d, [])
      | None => (Hang, t, [])
      end
  | ev :: rest =>
      if in_time tmo start (event_time ev) then
        let t' := Z.max t (event_time ev) in
        match ev with
        | Arrives _ from data => (Ret (firstn bufsize data, from), t', rest)
        | Fails _ errno =>
            if retried tmo errno then recv_wait bufsize tmo start t' rest
            else (Raise (os_error errno), t', rest)
        end
      else
        match tmo with
        | Some d => (Raise socket_timeout, start + d, ev :: rest)
        | None => (Hang, t, ev :: rest)
        end
  end.

(** [sock.recvfrom(bufsize)] on a datagram socket: one receive attempt,
    recorded with the timeout in force and the time it starts. *)
Definition recvfrom (bufsize : nat) : M (bytes * endpoint) :=
  with_sock (fun sk s0 =>
    let s := log (Call_recvfrom bufsize (sk_timeout sk) (now s0)) s0 in
    let '(r, t', q') :=
      recv_wait bufsize (sk_timeout sk) (now s) (now s) (inbox s) in
    (r, deliver t' q' s)).

(* ===================================================================== *)
(** ** The script *)
(* ===================================================================== *)

(** Remember, in a branch, which value was matched. *)
Definition inspect {A} (a : A) : {b : A | a = b} := exist _ a eq_refl.

(** The receive loop,
<<
    while time.time() - start_time < 5.0:
        try:
            msg, addr = sock.recvfrom(1500)
            print(addr, msg.hex())
        except socket.timeout:
            break
>>
    with the literal [5.0] of the loop test as the parameter [duration];
    [time.time()] is the clock [now] of the state. Every turn that goes
    round again has taken an event off the network, which is why the loop
    ends. *)
Equations? receive_loop (duration start_time : Z) (s : State)
  : result unit * State by wf (List.length (inbox s)) lt :=
  receive_loop duration start_time s with (now s - start_time <? duration) := {
    | false := (Ret tt, s);
    | true with inspect (recvfrom 1500 s) := {
        | exist _ (Ret (msg, addr), s1) received :=
            receive_loop duration start_time
              (snd (print (addr, Hex.hex msg) s1));
        | exist _ (Raise socket_timeout, s1) _ := (Ret tt, s1);
        | exist _ (Raise e, s1) _ := (Raise e, s1);
        | exist _ (Hang, s1) _ := (Hang, s1) } }.
Proof.
  assert (shorter : forall tmo start q t r t' q',
            recv_wait 1500 tmo start t q = (Ret r, t', q') ->
            (List.length q' < List.length q)%nat).
  { induction q as [|ev rest IH]; intros t r t' q'; cbn [recv_wait].
    - destruct tmo; discriminate.
    - destruct (in_time tmo start (event_time ev)).
      + destruct ev as [u from data|u errno].
        * intros E. inversion E; subst. cbn. lia.
        * destruct (retried tmo errno).
          -- intros E. apply IH in E. cbn. lia.
          -- discriminate.
      + destruct tmo; discriminate. }
  revert received. unfold recvfrom, with_sock.
  destruct (sock s) as [sk|]; [|discriminate].
  destruct (sk_closed sk); [discriminate|].
  cbn [log inbox now].
  destruct (recv_wait 1500 (sk_timeout sk) (now s) (now s) (inbox s))
    as [[r t'] q'] eqn:W.
  intros E. inversion E; subst. apply shorter in W. cbn. exact W.
Qed.

(** Lines 9 to 12: the socket and its options. *)
Definition open_socket : M unit :=
  socket_socket AF_INET SOCK_DGRAM ;;
  setsockopt SOL_SOCKET SO_REUSEADDR 1 ;;
  setsockopt SOL_SOCKET SO_BROADCAST 1 ;;
  sock_bind ("", PORT).

(** Lines 16 to 24: the timed collection. The script writes [5.0] twice,
    once for the socket timeout and once in the loop test; they are the two
    parameters here. *)
Definition collect (timeout duration : Z) : M unit :=
  settimeout (Some timeout) ;;
  start_time <- time_time ;;
  receive_loop duration start_time.

(** The whole of [get_instances.py]. *)
Definition script : M unit :=
  open_socket ;;
  data <- bytes_fromhex pkt ;;
  sendto data (IP, PORT) ;;
  collect 5000 5000 ;;
  sock_close.

(** A run of the script started at time [t0] against a network that is going
    to hand over the events [net]. *)
Definition run (t0 : Z) (net : list event) : result unit * State :=
  script (boot t0 net).

(* ===================================================================== *)
(** ** Vocabulary of the properties *)
(* ===================================================================== *)

(** Two devices for the examples. *)
Definition dev1 : endpoint := ("192.168.0.212", 3610).
Definition dev2 : endpoint := ("192.168.0.17", 3610).

(** The socket is there and open. *)
Definition opened (s : State) : Prop :=
  exists sk, sock s = Some sk /\ sk_closed sk = false.

(** A socket that is open and has the timeout [T]: what the loop runs on. *)
Definition listening (T : Z) (s : State) : Prop :=
  exists sk, sock s = Some sk /\ sk_closed sk = false /\ sk_timeout sk = Some T.

(** The state in which a receive attempt under timeout [T] starts. *)
Definition attempt (T : Z) (s : State) : State :=
  log (Call_recvfrom 1500 (Some T) (now s)) s.

(** The lines the loop prints for the events it takes. *)
Fixpoint lines_of (evs : list event) : list line :=
  match evs with
  | [] => []
  | Arrives _ from data :: rest =>
      (from, Hex.hex (firstn 1500 data)) :: lines_of rest
  | Fails _ _ :: rest => lines_of rest
  end.

Definition is_datagram (ev : event) : Prop :=
  match ev with
  | Arrives _ _ _ => True
  | Fails _ _ => False
  end.

(** A receive attempt of 1500 bytes under the timeout [T], started at a time
    from [lo] on and before [hi]. *)
Definition recv_under (T lo hi : Z) (c : call) : Prop :=
  exists t, c = Call_recvfrom 1500 (Some T) t /\ lo <= t < hi.

(** How the loop ends, given the events it took: normally, or raising the
    error of the failure it took last, which is then neither a timeout nor
    one that a receive attempt under timeout [T] retries. *)
Definition ends (T : Z) (took : list event) (r : result unit) : Prop :=
  match r with
  | Ret _ => True
  | Raise (OSError e) =>
      exists pre t,
        took = pre ++ [Fails t e] /\
        e <> ETIMEDOUT /\ retried (Some T) e = false
  | _ => False
  end.

(** What one receive attempt under timeout [T] has taken, given its result:
    events that print one line when it returns a message, no line when it
    raises, and a reported failure last when it raises an [OSError]. *)
Definition attempt_took (T : Z) (took : list event)
    (r : result (bytes * endpoint)) : Prop :=
  match r with
  | Ret (msg, addr) => lines_of took = [(addr, Hex.hex msg)]
  | Raise socket_timeout => lines_of took = []
  | Raise (OSError e) =>
      lines_of took = [] /\
      exists pre u,
        took = pre ++ [Fails u e] /\
        e <> ETIMEDOUT /\ retried (Some T) e = false
  | _ => False
  end.

(** The time at which the receive attempt that follows the events [evs]
    starts, when the one before them started at [t] and they were taken one
    by one: the latest of [t] and their arrivals. *)
Definition latest (t : Z) (evs : list event) : Z :=
  fold_left (fun acc ev => Z.max acc (event_time ev)) evs t.

(** What the loop does with the outcome of a receive attempt made in
    state [s0]. *)
Definition after_attempt (D st : Z) (s0 : State)
    (w : result (bytes * endpoint) * Z * list event) : result unit * State :=
  let '(r, t', q') := w in
  match r with
  | Ret (msg, addr) =>
      receive_loop D st (emit (addr, Hex.hex msg) (deliver t' q' s0))
  | Raise socket_timeout => (Ret tt, deliver t' q' s0)
  | Raise e => (Raise e, deliver t' q' s0)
  | Hang => (Hang, deliver t' q' s0)
  end.

(** An event that is a datagram arriving before [deadline]. *)
Definition arrives_before (deadline : Z) (ev : event) : Prop :=
  is_datagram ev /\ event_time ev < deadline.

(** How a printed line stands for an event: the sender, and text that reads
    back as the bytes [recvfrom] returned, which are the bytes of the
    datagram when it fits the buffer. *)
Definition entry_of (ev : event) (l : line) : Prop :=
  match ev with
  | Arrives _ from data =>
      fst l = from /\
      Hex.fromhex (snd l) = Some (firstn 1500 data) /\
      ((List.length data <= 1500)%nat -> Hex.fromhex (snd l) = Some data)
  | Fails _ _ => False
  end.

(** The datagrams a run has sent, with their destinations. *)
Fixpoint sent (tr : list call) : list (bytes * endpoint) :=
  match tr with
  | [] => []
  | Call_sendto data a :: rest => (data, a) :: sent rest
  | _ :: rest => sent rest
  end.

(** The request frame, byte by byte. *)
Definition request : bytes :=
  [x10; x81; x00; x00; x0e; xf0; x01; x0e; xf0; x01; x62; x01; xd6; x00].

(** The state in which the collection starts: socket set up, request sent. *)
Definition ready (t0 : Z) (net : list event) : State :=
  {| sock := Some {| sk_family := AF_INET; sk_type := SOCK_DGRAM;
                     so_reuseaddr := true; so_broadcast := true;
                     sk_local := Some ("", PORT); sk_timeout := None;
                     sk_closed := false |};
     now := t0;
     inbox := net;
     trace := [Call_socket AF_INET SOCK_DGRAM;
               Call_setsockopt SOL_SOCKET SO_REUSEADDR 1;
               Call_setsockopt SOL_SOCKET SO_BROADCAST 1;
               Call_bind ("", PORT);
               Call_sendto request (IP, PORT)];
     stdout := [] |}.

(** An [errno] for the examples. *)
Definition ECONNREFUSED : Z := 111.

(** The number of receive attempts among the calls of a run. *)
Fixpoint recv_attempts (tr : list call) : nat :=
  match tr with
  | [] => 0%nat
  | Call_recvfrom _ _ _ :: rest => S (recv_attempts rest)
  | _ :: rest => recv_attempts rest
  end.

(** A socket that is open and has no timeout: a receive attempt on it waits
    as long as it takes. *)
Definition blocking (s : State) : Prop :=
  exists sk, sock s = Some sk /\ sk_closed sk = false /\ sk_timeout sk = None.

(** What a printed text looks like: the hexadecimal digits, two for each
    byte, of at most 1500 bytes. *)
Definition clipped_text (l : line) : Prop :=
  exists b,
    snd l = Hex.hex b /\ (List.length b <= 1500)%nat /\
    String.length (snd l) = (2 * List.length b)%nat.

(** The socket of the script once its timeout is set, open or closed. *)
Definition script_socket (is_closed : bool) : socket :=
  {| sk_family := AF_INET; sk_type := SOCK_DGRAM;
     so_reuseaddr := true; so_broadcast := true;
     sk_local := Some ("", PORT); sk_timeout := Some 5000;
     sk_closed := is_closed |}.

(* The 1500-byte cut is never unfolded while simplifying. *)
Local Arguments firstn : simpl never.


(* ===================================================================== *)
(** ** One turn of the loop *)
(* ===================================================================== *)

Lemma receive_loop_turn duration start_time s :
  receive_loop duration start_time s =
  if now s - start_time <? duration then
    match recvfrom 1500 s with
    | (Ret (msg, addr), s1) =>
        receive_loop duration start_time (emit (addr, Hex.hex msg) s1)
    | (Raise socket_timeout, s1) => (Ret tt, s1)
    | (Raise e, s1) => (Raise e, s1)
    | (Hang, s1) => (Hang, s1)
    end
  else (Ret tt, s).
Proof.
  simp receive_loop.
  destruct (now s - start_time <? duration); cbn; [|reflexivity].
  destruct (recvfrom 1500 s) as [[[msg addr]|e|] s1]; [reflexivity| |reflexivity].
  destruct e; reflexivity.
Qed.

Lemma recvfrom_listening T s :
  listening T s ->
  recvfrom 1500 s =
  let '(r, t', q') := recv_wait 1500 (Some T) (now s) (now s) (inbox s) in
  (r, deliver t' q' (attempt T s)).
Proof.
  intros (sk & Hsk & Hopen & Htmo).
  unfold recvfrom, with_sock, attempt.
  rewrite Hsk, Hopen, Htmo. reflexivity.
Qed.

(** One turn of the loop on a listening socket. *)
Lemma receive_loop_listening D st T s :
  listening T s ->
  receive_loop D st s =
  if now s - st <? D then
    after_attempt D st (attempt T s)
      (recv_wait 1500 (Some T) (now s) (now s) (inbox s))
  else (Ret tt, s).
Proof.
  intros L. rewrite receive_loop_turn, (recvfrom_listening T s L).
  destruct (now s - st <? D); [|reflexivity].
  unfold after_attempt.
  destruct (recv_wait 1500 (Some T) (now s) (now s) (inbox s))
    as [[[[msg addr]|e|] t'] q']; [reflexivity| |reflexivity].
  destruct e; reflexivity.
Qed.

(** The turn that finds a datagram in time. *)
Lemma receive_loop_datagram D st T s t from data rest :
  listening T s ->
  inbox s = Arrives t from data :: rest ->
  now s - st < D -> t < now s + T ->
  receive_loop D st s =
  receive_loop D st
    (emit (from, Hex.hex (firstn 1500 data))
       (deliver (Z.max (now s) t) rest (attempt T s))).
Proof.
  intros L Hin Hgo Ht. rewrite (receive_loop_listening D st T s L), Hin.
  replace (now s - st <? D) with true by (symmetry; apply Z.ltb_lt; lia).
  cbn [recv_wait in_time event_time].
  replace (t <? now s + T) with true by (symmetry; apply Z.ltb_lt; lia).
  reflexivity.
Qed.

(** The turn that finds a failure in time, one that is reported: the loop
    ends, normally when the failure is a timeout. *)
Lemma receive_loop_reported D st T s t e rest :
  listening T s ->
  inbox s = Fails t e :: rest ->
  now s - st < D -> t < now s + T ->
  retried (Some T) e = false ->
  receive_loop D st s =
  (if e =? ETIMEDOUT then Ret tt else Raise (OSError e),
   deliver (Z.max (now s) t) rest (attempt T s)).
Proof.
  intros L Hin Hgo Ht Hre. rewrite (receive_loop_listening D st T s L), Hin.
  replace (now s - st <? D) with true by (symmetry; apply Z.ltb_lt; lia).
  cbn [recv_wait in_time event_time].
  replace (t <? now s + T) with true by (symmetry; apply Z.ltb_lt; lia).
  rewrite Hre. unfold after_attempt, os_error.
  destruct (e =? ETIMEDOUT); reflexivity.
Qed.

(** The turn that finds nothing in time: the loop ends on the timeout. *)
Lemma receive_loop_expires D st T s :
  listening T s ->
  now s - st < D ->
  match inbox s with
  | [] => True
  | ev :: _ => now s + T <= event_time ev
  end ->
  receive_loop D st s =
  (Ret tt, deliver (now s + T) (inbox s) (attempt T s)).
Proof.
  intros L Hgo Hnone. rewrite (receive_loop_listening D st T s L).
  replace (now s - st <? D) with true by (symmetry; apply Z.ltb_lt; lia).
  destruct (inbox s) as [|ev rest]; [reflexivity|].
  cbn [recv_wait in_time].
  replace (event_time ev <? now s + T) with false
    by (symmetry; apply Z.ltb_ge; lia).
  reflexivity.
Qed.

(* ===================================================================== *)
(** ** What a run of the loop leaves behind *)
(* ===================================================================== *)

Lemma lines_of_app evs evs' :
  lines_of (evs ++ evs') = lines_of evs ++ lines_of evs'.
Proof.
  induction evs as [|[t from data|t e] evs IH]; cbn; [reflexivity| |exact IH].
  now rewrite IH.
Qed.


Lemma recv_under_from T lo lo' hi c :
  lo' <= lo -> recv_under T lo hi c -> recv_under T lo' hi c.
Proof. intros Hlo (t & -> & Ht). exists t. split; [reflexivity | lia]. Qed.

(** One receive attempt under a timeout: it takes the events at the head of
    the network, each come before the timeout ran out, and is over by the
    end of the timeout. *)
Lemma recv_wait_spec T start :
  0 <= T ->
  forall q t r t' q',
    start <= t <= start + T ->
    recv_wait 1500 (Some T) start t q = (r, t', q') ->
    exists took,
      q = took ++ q' /\
      t <= t' <= start + T /\
      Forall (fun ev => event_time ev < start + T) took /\
      attempt_took T took r.
Proof.
  intros HT.
  induction q as [|ev rest IH]; intros t r t' q' Ht E; cbn [recv_wait] in E.
  - inversion E; subst. exists []. cbn. repeat split; auto; lia.
  - cbn [in_time] in E.
    destruct (event_time ev <? start + T) eqn:Hin.
    2:{ inversion E; subst. exists []. cbn. repeat split; auto; lia. }
    apply Z.ltb_lt in Hin.
    destruct ev as [u from data|u e]; cbn [event_time] in *.
    + inversion E; subst. exists [Arrives u from data].
      cbn. repeat split; auto; lia.
    + destruct (retried (Some T) e) eqn:Hre.
      * destruct (IH (Z.max t u) r t' q' ltac:(lia) E)
          as (took & -> & Ht' & Hall & Hr).
        exists (Fails u e :: took).
        split; [reflexivity|]. split; [lia|].
        split; [constructor; [cbn; lia | exact Hall]|].
        destruct r as [[msg addr]|[|e'|]|]; cbn [attempt_took lines_of] in *;
          auto.
        destruct Hr as (Hl & pre & u' & -> & Hne & Hre').
        split; [exact Hl|]. exists (Fails u e :: pre), u'. auto.
      * inversion E; subst. exists [Fails u e].
        split; [reflexivity|]. split; [lia|].
        split; [constructor; [cbn; lia | constructor]|].
        unfold os_error. destruct (e =? ETIMEDOUT) eqn:Hto; cbn; auto.
        split; [reflexivity|]. exists [], u.
        repeat split; auto. now apply Z.eqb_neq.
Qed.

(** The loop takes a prefix of what the network hands over, prints one line
    for each datagram of that prefix, makes only receive attempts under the
    socket's timeout, each started before [st + D], and does not touch the
    socket. Every event it takes came less than [D + T] after the start, and
    the loop is over before [st + D + T]. *)
Lemma receive_loop_spec D st T :
  0 <= T ->
  forall net s, inbox s = net -> listening T s ->
  exists took recvs,
    net = took ++ inbox (snd (receive_loop D st s)) /\
    stdout (snd (receive_loop D st s)) = stdout s ++ lines_of took /\
    trace (snd (receive_loop D st s)) = trace s ++ recvs /\
    Forall (recv_under T (now s) (st + D)) recvs /\
    sock (snd (receive_loop D st s)) = sock s /\
    ends T took (fst (receive_loop D st s)) /\
    Forall (fun ev => event_time ev < st + D + T) took /\
    now s <= now (snd (receive_loop D st s)) /\
    (now s < st + D + T -> now (snd (receive_loop D st s)) < st + D + T).
Proof.
  intros HT net s Hnet L. subst net.
  remember (List.length (inbox s)) as n eqn:Hn.
  revert s Hn L.
  induction n as [n IH] using lt_wf_ind. intros s Hn L.
  rewrite (receive_loop_listening D st T s L).
  destruct (now s - st <? D) eqn:Hgo.
  2:{ exists [], []. cbn. rewrite !app_nil_r.
      repeat split; auto; try lia. }
  apply Z.ltb_lt in Hgo.
  destruct (recv_wait 1500 (Some T) (now s) (now s) (inbox s))
    as [[r t'] q'] eqn:W.
  destruct (recv_wait_spec T (now s) HT (inbox s) (now s) r t' q' ltac:(lia) W)
    as (took0 & Hq & Ht' & Hall0 & Hr).
  assert (Hall0' : Forall (fun ev => event_time ev < st + D + T) took0).
  { revert Hall0. apply Forall_impl. intros ev. lia. }
  assert (one : Forall (recv_under T (now s) (st + D))
                  [Call_recvfrom 1500 (Some T) (now s)]).
  { constructor; [exists (now s); split; [reflexivity | lia] | constructor]. }
  unfold after_attempt.
  destruct r as [[msg addr]|[|e|]|]; cbn [attempt_took] in Hr;
    try contradiction.
  - set (s2 := emit (addr, Hex.hex msg) (deliver t' q' (attempt T s))).
    assert (Hshort : (List.length (inbox s2) < n)%nat).
    { subst s2 n. cbn [inbox emit deliver]. rewrite Hq, length_app.
      destruct took0; [discriminate Hr | cbn; lia]. }
    destruct (IH _ Hshort s2 eq_refl L)
      as (took & recvs & H1 & H2 & H3 & H4 & H5 & H6 & H7 & H8 & H9).
    exists (took0 ++ took), (Call_recvfrom 1500 (Some T) (now s) :: recvs).
    subst s2. cbn [inbox stdout trace now emit deliver attempt log] in *.
    repeat split.
    + rewrite Hq, <- app_assoc. now rewrite <- H1.
    + rewrite H2, lines_of_app, Hr. now rewrite <- app_assoc.
    + rewrite H3. now rewrite <- app_assoc.
    + constructor; [exists (now s); split; [reflexivity | lia]|].
      revert H4. apply Forall_impl. intros c. apply recv_under_from. lia.
    + rewrite H5. reflexivity.
    + destruct (fst (receive_loop D st _)) as [[]|[|e|]|];
        cbn [ends] in *; try contradiction; auto.
      destruct H6 as (pre & u & -> & Hne & Hre).
      exists (took0 ++ pre), u. rewrite app_assoc. auto.
    + apply Forall_app. auto.
    + lia.
    + intros _. apply H9. lia.
  - exists took0, [Call_recvfrom 1500 (Some T) (now s)].
    cbn [fst snd inbox stdout trace now sock deliver attempt log ends].
    rewrite Hr, !app_nil_r. repeat split; auto; lia.
  - destruct Hr as (Hl & pre & u & -> & Hne & Hre).
    exists (pre ++ [Fails u e]), [Call_recvfrom 1500 (Some T) (now s)].
    cbn [fst snd inbox stdout trace now sock deliver attempt log ends].
    rewrite Hl, !app_nil_r. repeat split; auto; try lia.
    exists pre, u. auto.
Qed.

Lemma arrives_before_datagrams deadline evs :
  Forall (arrives_before deadline) evs -> Forall is_datagram evs.
Proof. apply Forall_impl. now intros ev [Hd _]. Qed.

(** Datagrams that all arrive before the deadline are taken one after the
    other, and the loop goes on from the state they leave, in which the
    clock shows the latest of their arrivals. *)
Lemma receive_loop_prefix D st T :
  D <= T ->
  forall pre s rest, inbox s = pre ++ rest -> listening T s ->
  st <= now s < st + D ->
  Forall (arrives_before (st + D)) pre ->
  exists s2 recvs,
    receive_loop D st s = receive_loop D st s2 /\
    inbox s2 = rest /\ listening T s2 /\ st <= now s2 < st + D /\
    stdout s2 = stdout s ++ lines_of pre /\
    trace s2 = trace s ++ recvs /\
    Forall (recv_under T (now s) (st + D)) recvs /\
    now s2 = latest (now s) pre /\
    sock s2 = sock s.
Proof.
  intros HDT.
  induction pre as [|ev pre IH]; intros s rest Hin L Hnow Hall.
  - exists s, []. rewrite !app_nil_r. repeat split; auto; lia.
  - inversion Hall as [|? ? [Hd Ht] Hpre]; subst.
    destruct ev as [t from data|t e]; [|contradiction].
    cbn [event_time] in Ht.
    set (s1 := emit (from, Hex.hex (firstn 1500 data))
                 (deliver (Z.max (now s) t) (pre ++ rest) (attempt T s))).
    destruct (IH s1 rest eq_refl L)
      as (s2 & recvs & E & H1 & H2 & H3 & H4 & H5 & H6 & H7 & H8).
    + subst s1. cbn [now emit deliver]. lia.
    + exact Hpre.
    + exists s2, (Call_recvfrom 1500 (Some T) (now s) :: recvs).
      repeat split; auto; try lia.
      * rewrite <- E.
        apply (receive_loop_datagram D st T s t from data (pre ++ rest));
          auto; lia.
      * rewrite H4. subst s1. cbn [stdout emit deliver attempt log lines_of].
        now rewrite <- app_assoc.
      * rewrite H5. subst s1. cbn [trace emit deliver attempt log].
        now rewrite <- app_assoc.
      * constructor; [exists (now s); split; [reflexivity | lia]|].
        revert H6. apply Forall_impl. intros c. apply recv_under_from.
        subst s1. cbn [now emit deliver]. lia.
Qed.

(** When the socket timeout is at least the duration, the loop takes every
    datagram that arrives before the deadline [st + D], and then ends on the
    timeout of one more attempt. *)
Lemma receive_loop_takes_all D st T :
  D <= T ->
  forall net s, inbox s = net -> listening T s ->
  st <= now s < st + D ->
  Forall (arrives_before (st + D)) net ->
  fst (receive_loop D st s) = Ret tt /\
  inbox (snd (receive_loop D st s)) = [] /\
  stdout (snd (receive_loop D st s)) = stdout s ++ lines_of net.
Proof.
  intros HDT net s Hin L Hnow Hall.
  destruct (receive_loop_prefix D st T HDT net s [] (eq_sym (eq_trans (app_nil_r net) (eq_sym Hin))) L Hnow Hall)
    as (s2 & recvs & -> & H1 & L2 & H3 & H4 & _).
  rewrite (receive_loop_expires D st T s2 L2); [|lia|now rewrite H1].
  cbn. rewrite H1. auto.
Qed.

(** A reported failure met by the attempt that follows datagrams which all
    arrived before the deadline: the loop ends there, normally when the
    failure is a timeout and raising it otherwise, with the lines of those
    datagrams printed and the rest of the network left alone. *)
Lemma receive_loop_failure D st T t e post :
  D <= T ->
  forall pre s, inbox s = pre ++ Fails t e :: post -> listening T s ->
  st <= now s < st + D ->
  Forall (arrives_before (st + D)) pre ->
  t < latest (now s) pre + T ->
  retried (Some T) e = false ->
  fst (receive_loop D st s) =
    (if e =? ETIMEDOUT then Ret tt else Raise (OSError e)) /\
  inbox (snd (receive_loop D st s)) = post /\
  stdout (snd (receive_loop D st s)) = stdout s ++ lines_of pre /\
  sock (snd (receive_loop D st s)) = sock s.
Proof.
  intros HDT pre s Hin L Hnow Hall Ht Hre.
  destruct (receive_loop_prefix D st T HDT pre s _ Hin L Hnow Hall)
    as (s2 & recvs & -> & H1 & L2 & H3 & H4 & _ & _ & H7 & H8).
  rewrite (receive_loop_reported D st T s2 t e post L2 H1
             ltac:(lia) ltac:(lia) Hre).
  cbn. auto.
Qed.



(** With a socket timeout that is at least the duration and a network that
    hands over datagrams only, the loop comes to a normal end, and not
    before the deadline. *)
Lemma receive_loop_full_duration D st T :
  D <= T ->
  forall net s, inbox s = net -> listening T s -> st <= now s ->
  Forall is_datagram net ->
  fst (receive_loop D st s) = Ret tt /\
  st + D <= now (snd (receive_loop D st s)).
Proof.
  intros HDT.
  induction net as [|ev rest IH]; intros s Hin L Hnow Hall;
    (destruct (now s - st <? D) eqn:Hgo;
     [apply Z.ltb_lt in Hgo
     |apply Z.ltb_ge in Hgo;
      rewrite (receive_loop_listening D st T s L);
      replace (now s - st <? D) with false by (symmetry; apply Z.ltb_ge; lia);
      cbn; split; [reflexivity | lia]]).
  - rewrite (receive_loop_expires D st T s L Hgo); [|now rewrite Hin].
    cbn. split; [reflexivity | lia].
  - inversion Hall as [|? ? Hd Hrest]; subst.
    destruct ev as [t from data|t e]; [|contradiction].
    destruct (Z.lt_ge_cases t (now s + T)) as [Ht | Ht].
    + rewrite (receive_loop_datagram D st T s t from data rest L Hin Hgo Ht).
      apply IH; [reflexivity | exact L | | exact Hrest].
      cbn [now emit deliver]. lia.
    + rewrite (receive_loop_expires D st T s L Hgo); [|now rewrite Hin].
      cbn. split; [reflexivity | lia].
Qed.

Lemma recv_attempts_app tr tr' :
  recv_attempts (tr ++ tr') = (recv_attempts tr + recv_attempts tr')%nat.
Proof.
  induction tr as [|c tr IH]; [reflexivity|].
  destruct c; cbn; rewrite IH; reflexivity.
Qed.

(** Each turn of the loop makes one receive attempt and prints at most one
    line, and only the last attempt can go without a line. *)
Lemma receive_loop_attempts D st T :
  0 <= T ->
  forall net s, inbox s = net -> listening T s ->
  exists k m,
    recv_attempts (trace (snd (receive_loop D st s))) =
      (recv_attempts (trace s) + k)%nat /\
    List.length (stdout (snd (receive_loop D st s))) =
      (List.length (stdout s) + m)%nat /\
    (m <= k <= m + 1)%nat /\
    (now s - st < D -> (1 <= k)%nat).
Proof.
  intros HT net s Hnet L. subst net.
  remember (List.length (inbox s)) as n eqn:Hn.
  revert s Hn L.
  induction n as [n IH] using lt_wf_ind. intros s Hn L.
  rewrite (receive_loop_listening D st T s L).
  destruct (now s - st <? D) eqn:Hgo.
  2:{ apply Z.ltb_ge in Hgo. exists 0%nat, 0%nat. cbn. repeat split; lia. }
  destruct (recv_wait 1500 (Some T) (now s) (now s) (inbox s))
    as [[r t'] q'] eqn:W.
  destruct (recv_wait_spec T (now s) HT (inbox s) (now s) r t' q'
              ltac:(lia) W) as (took0 & Hq & _ & _ & Hr).
  unfold after_attempt.
  destruct r as [[msg addr]|[|e|]|]; cbn [attempt_took] in Hr;
    try contradiction.
  - set (s2 := emit (addr, Hex.hex msg) (deliver t' q' (attempt T s))).
    assert (Hshort : (List.length (inbox s2) < n)%nat).
    { subst s2 n. cbn [inbox emit deliver]. rewrite Hq, length_app.
      destruct took0; [discriminate Hr | cbn; lia]. }
    destruct (IH _ Hshort s2 eq_refl L) as (k & m & Hk & Hm & Hkm & _).
    exists (S k), (S m). rewrite Hk, Hm. subst s2.
    cbn [trace stdout emit deliver attempt log].
    rewrite recv_attempts_app, length_app. cbn. repeat split; lia.
  - exists 1%nat, 0%nat. cbn [snd trace stdout deliver attempt log].
    rewrite recv_attempts_app. cbn. repeat split; lia.
  - exists 1%nat, 0%nat. cbn [snd trace stdout deliver attempt log].
    rewrite recv_attempts_app. cbn. repeat split; lia.
Qed.

(** [collect] is the loop run on the socket with its timeout set. *)
Lemma collect_eq T D s :
  opened s ->
  exists s1,
    collect T D s = receive_loop D (now s) s1 /\
    listening T s1 /\
    now s1 = now s /\ inbox s1 = inbox s /\ stdout s1 = stdout s /\
    trace s1 = trace s ++ [Call_settimeout (Some T)] /\
    (forall sk, sock s1 = Some sk ->
       exists sk0, sock s = Some sk0 /\ sk_local sk = sk_local sk0).
Proof.
  intros (sk & Hsk & Hopen).
  eexists. split.
  - unfold collect, bind, settimeout, with_sock, time_time.
    rewrite Hsk, Hopen. cbn [set_sock log now]. reflexivity.
  - repeat split; cbn; try reflexivity.
    + eexists. repeat split; cbn; auto.
    + intros sk1 E. inversion E; subst. exists sk. auto.
Qed.

(* ===================================================================== *)
(** ** The script up to the broadcast *)
(* ===================================================================== *)

Lemma script_ready t0 net :
  (open_socket ;; data <- bytes_fromhex pkt ;; sendto data (IP, PORT))
    (boot t0 net) = (Ret tt, ready t0 net).
Proof. reflexivity. Qed.

Lemma run_eq t0 net :
  run t0 net = (collect 5000 5000 ;; sock_close) (ready t0 net).
Proof. reflexivity. Qed.

Lemma ready_opened t0 net : opened (ready t0 net).
Proof. eexists. split; reflexivity. Qed.

(** [collect] as a whole: [receive_loop_spec] with the entry time as start
    and the call of [settimeout] in front of the receive attempts. *)
Lemma collect_spec T D s :
  0 <= T -> opened s ->
  exists took recvs,
    inbox s = took ++ inbox (snd (collect T D s)) /\
    stdout (snd (collect T D s)) = stdout s ++ lines_of took /\
    trace (snd (collect T D s)) =
      trace s ++ Call_settimeout (Some T) :: recvs /\
    Forall (recv_under T (now s) (now s + D)) recvs /\
    listening T (snd (collect T D s)) /\
    ends T took (fst (collect T D s)) /\
    Forall (fun ev => event_time ev < now s + D + T) took /\
    now s <= now (snd (collect T D s)) /\
    (0 < D + T -> now (snd (collect T D s)) < now s + D + T) /\
    (forall sk, sock (snd (collect T D s)) = Some sk ->
       exists sk0, sock s = Some sk0 /\ sk_local sk = sk_local sk0).
Proof.
  intros HT Hop.
  destruct (collect_eq T D s Hop)
    as (s1 & -> & L & Hnow & Hin & Hout & Htr & Hloc).
  destruct (receive_loop_spec D (now s) T HT (inbox s1) s1 eq_refl L)
    as (took & recvs & H1 & H2 & H3 & H4 & H5 & H6 & H7 & H8 & H9).
  exists took, recvs.
  rewrite Hin in H1. rewrite Hout in H2. rewrite Htr, <- app_assoc in H3.
  rewrite Hnow in H4, H8, H9.
  repeat split; auto.
  - destruct L as (sk & Hsk & Hc & Ht). exists sk. rewrite H5. auto.
  - intros HDT. apply H9. lia.
  - intros sk Hsk. rewrite H5 in Hsk. auto.
Qed.

(** How the whole script ends: it closes the socket when the collection
    returns, and stops where the collection raises. *)
Lemma run_after_collect t0 net :
  let c := collect 5000 5000 (ready t0 net) in
  exists closing,
    fst (run t0 net) = fst c /\
    now (snd (run t0 net)) = now (snd c) /\
    inbox (snd (run t0 net)) = inbox (snd c) /\
    stdout (snd (run t0 net)) = stdout (snd c) /\
    trace (snd (run t0 net)) = trace (snd c) ++ closing /\
    (closing = [Call_close] \/ closing = []) /\
    (exists sk sk0,
       sock (snd (run t0 net)) = Some sk /\ sock (snd c) = Some sk0 /\
       sk_local sk = sk_local sk0).
Proof.
  intros c.
  destruct (collect_spec 5000 5000 (ready t0 net) ltac:(lia) (ready_opened _ _))
    as (took & recvs & _ & _ & _ & _ & (sk & Hsk & _) & Hend & _).
  fold c in Hsk, Hend.
  rewrite run_eq. unfold bind. fold c.
  destruct c as [[[]|e|] s1]; cbn [fst snd] in *.
  - unfold sock_close. rewrite Hsk. cbn.
    exists [Call_close]. repeat split; auto.
    eexists _, sk. repeat split.
  - exists []. rewrite app_nil_r. repeat split; auto.
    exists sk, sk. auto.
  - contradiction.
Qed.

(** The calls of a whole run, in order: set-up, broadcast, [settimeout],
    the receive attempts, and [close] when the script gets that far. *)
Lemma run_trace t0 net :
  exists recvs closing,
    trace (snd (run t0 net)) =
      [Call_socket AF_INET SOCK_DGRAM;
       Call_setsockopt SOL_SOCKET SO_REUSEADDR 1;
       Call_setsockopt SOL_SOCKET SO_BROADCAST 1;
       Call_bind ("", PORT);
       Call_sendto request (IP, PORT);
       Call_settimeout (Some 5000)] ++ recvs ++ closing /\
    Forall (recv_under 5000 t0 (t0 + 5000)) recvs /\
    (closing = [Call_close] \/ closing = []).
Proof.
  destruct (run_after_collect t0 net) as (closing & _ & _ & _ & _ & Htr & Hcl & _).
  destruct (collect_spec 5000 5000 (ready t0 net) ltac:(lia) (ready_opened _ _))
    as (took & recvs & _ & _ & H3 & H4 & _).
  exists recvs, closing. rewrite Htr, H3. cbn [ready trace app]. auto.
Qed.

(** A run against datagrams that all arrive before the deadline prints the
    line of each and ends normally. *)
Lemma run_takes_all t0 net :
  Forall (arrives_before (t0 + 5000)) net ->
  fst (run t0 net) = Ret tt /\ stdout (snd (run t0 net)) = lines_of net.
Proof.
  intros Hall.
  destruct (run_after_collect t0 net) as (closing & -> & _ & _ & -> & _).
  destruct (collect_eq 5000 5000 (ready t0 net) (ready_opened _ _))
    as (s1 & -> & L & Hnow & Hin & Hout & _).
  cbn [ready now inbox stdout] in *.
  destruct (receive_loop_takes_all 5000 t0 5000 ltac:(lia) net s1 Hin L)
    as (H1 & _ & H3); [lia | exact Hall |].
  rewrite H1, H3, Hout. auto.
Qed.

(* ===================================================================== *)
(** ** Hexadecimal text and what was sent *)
(* ===================================================================== *)

Example fromhex_pkt :
  Hex.fromhex pkt =
  Some [x10; x81; x00; x00; x0e; xf0; x01; x0e; xf0; x01; x62; x01; xd6; x00].
Proof. reflexivity. Qed.

Lemma hex_byte (x : byte) :
  let n := Byte.to_N x in
  Hex.is_space (Hex.digit_char (n / 16)) = false /\
  Hex.digit_value (Hex.digit_char (n / 16)) = Some (n / 16)%N /\
  Hex.digit_value (Hex.digit_char (n mod 16)) = Some (n mod 16)%N /\
  Byte.of_N (16 * (n / 16) + n mod 16) = Some x.
Proof. destruct x; vm_compute; repeat split; reflexivity. Qed.

(** The printed text of a message gives the message back. *)
Lemma fromhex_hex (b : bytes) : Hex.fromhex (Hex.hex b) = Some b.
Proof.
  induction b as [|x xs IH]; [reflexivity|].
  destruct (hex_byte x) as (Hsp & Htop & Hbot & Hx).
  cbn [Hex.hex Hex.fromhex] in *.
  rewrite Hsp, Htop, Hbot, Hx, IH. reflexivity.
Qed.

Lemma sent_app tr tr' : sent (tr ++ tr') = sent tr ++ sent tr'.
Proof.
  induction tr as [|c tr IH]; [reflexivity|].
  destruct c; cbn; rewrite IH; reflexivity.
Qed.

Lemma sent_recvs T lo hi recvs :
  Forall (recv_under T lo hi) recvs -> sent recvs = [].
Proof.
  induction 1 as [|c recvs (t & -> & _) _ IH]; [reflexivity | exact IH].
Qed.

Lemma lines_of_entries evs :
  Forall is_datagram evs -> Forall2 entry_of evs (lines_of evs).
Proof.
  induction 1 as [|[t from data|t e] evs Hd _ IH]; cbn [lines_of];
    [constructor | | contradiction].
  constructor; [|exact IH].
  cbn. rewrite fromhex_hex. repeat split.
  intros Hlen. now rewrite firstn_all2.
Qed.


(* ===================================================================== *)
(** ** The request frame and the socket set-up *)
(* ===================================================================== *)

(** C1. The request is always the same 14 bytes
    [10 81 00 00 0e f0 01 0e f0 01 62 01 d6 00], that is EHD1 = 0x10,
    EHD2 = 0x81, TID = 0x0000, SEOJ = DEOJ = 0x0EF001, ESV = 0x62,
    OPC = 0x01, EPC = 0xD6, PDC = 0x00: building it takes no input, cannot
    fail and gives these bytes in every state, and every run sends exactly
    one datagram, these bytes, to the broadcast address. *)
Theorem request_frame_is_fixed :
  Hex.fromhex pkt =
    Some [x10; x81; x00; x00; x0e; xf0; x01; x0e; xf0; x01; x62; x01; xd6; x00] /\
  frame_bytes {| EHD1 := x10; EHD2 := x81; TID := (x00, x00);
                 SEOJ := (x0e, xf0, x01); DEOJ := (x0e, xf0, x01);
                 ESV := x62; OPC := x01; EPC := xd6; PDC := x00 |} =
    [x10; x81; x00; x00; x0e; xf0; x01; x0e; xf0; x01; x62; x01; xd6; x00] /\
  (forall s,
     bytes_fromhex pkt s =
       (Ret [x10; x81; x00; x00; x0e; xf0; x01; x0e; xf0; x01; x62; x01; xd6; x00],
        s) /\
     (List.length [x10; x81; x00; x00; x0e; xf0; x01; x0e; xf0; x01; x62; x01;
                   xd6; x00] = 14)%nat) /\
  (forall t0 net,
     sent (trace (snd (run t0 net))) =
       [([x10; x81; x00; x00; x0e; xf0; x01; x0e; xf0; x01; x62; x01; xd6; x00],
         (IP, PORT))]).
Proof.
  split; [reflexivity|]. split; [reflexivity|]. split.
  - intros s. split; reflexivity.
  - intros t0 net.
    destruct (run_trace t0 net) as (recvs & closing & -> & Hr & Hc).
    rewrite !sent_app, (sent_recvs _ _ _ _ Hr).
    destruct Hc as [-> | ->]; reflexivity.
Qed.

(** C8. Opening the session creates a UDP socket, turns address reuse and
    broadcast permission on and binds it to the wildcard address on port
    3610; these four calls are the first four of every run, so they come
    before anything is sent or received. *)
Theorem socket_set_up_first t0 net :
  (exists s,
     open_socket (boot t0 net) = (Ret tt, s) /\
     sock s = Some {| sk_family := AF_INET; sk_type := SOCK_DGRAM;
                      so_reuseaddr := true; so_broadcast := true;
                      sk_local := Some ("", 3610); sk_timeout := None;
                      sk_closed := false |}) /\
  (exists rest,
     trace (snd (run t0 net)) =
       [Call_socket AF_INET SOCK_DGRAM;
        Call_setsockopt SOL_SOCKET SO_REUSEADDR 1;
        Call_setsockopt SOL_SOCKET SO_BROADCAST 1;
        Call_bind ("", 3610)] ++ rest).
Proof.
  split.
  - eexists. split; reflexivity.
  - destruct (run_trace t0 net) as (recvs & closing & -> & _).
    eexists. reflexivity.
Qed.

(** C9. The socket timeout is set once, to 5.0 seconds, after the broadcast
    and before the first receive attempt. Every receive attempt of the run
    starts at some time of the 5.0 seconds that the loop test allows, and is
    made under that same timeout of 5.0 seconds whatever that time is. *)
Theorem receive_timeout_is_fixed t0 net :
  exists recvs closing,
    trace (snd (run t0 net)) =
      [Call_socket AF_INET SOCK_DGRAM;
       Call_setsockopt SOL_SOCKET SO_REUSEADDR 1;
       Call_setsockopt SOL_SOCKET SO_BROADCAST 1;
       Call_bind ("", PORT);
       Call_sendto request (IP, PORT)]
      ++ Call_settimeout (Some 5000) :: recvs ++ closing /\
    Forall (fun c => exists t,
              c = Call_recvfrom 1500 (Some 5000) t /\ t0 <= t < t0 + 5000)
           recvs /\
    (closing = [Call_close] \/ closing = []).
Proof.
  destruct (run_trace t0 net) as (recvs & closing & -> & Hr & Hc).
  exists recvs, closing. repeat split; auto.
Qed.

(** C10. The port the socket is bound to and the port the broadcast is sent
    to are the same, 3610; the bind comes before the send; nothing binds the
    socket again, so it is on that port for the rest of the run. What comes
    in on that port is printed whoever sent it: when the network hands the
    script its own broadcast back, the script prints it like a reply. *)
Theorem bound_port_is_broadcast_port t0 net :
  exists bound_port dest_port data rest,
    trace (snd (run t0 net)) =
      [Call_socket AF_INET SOCK_DGRAM;
       Call_setsockopt SOL_SOCKET SO_REUSEADDR 1;
       Call_setsockopt SOL_SOCKET SO_BROADCAST 1;
       Call_bind ("", bound_port);
       Call_sendto data (IP, dest_port)] ++ rest /\
    bound_port = dest_port /\ dest_port = 3610 /\
    Forall (fun c => forall a, c <> Call_bind a) rest /\
    (exists sk,
       sock (snd (run t0 net)) = Some sk /\
       sk_local sk = Some ("", bound_port)) /\
    (forall me,
       stdout (snd (run t0 [Arrives t0 (me, dest_port) data])) =
         [((me, dest_port), "108100000ef0010ef0016201d600")]).
Proof.
  destruct (run_trace t0 net) as (recvs & closing & Htr & Hr & Hc).
  exists PORT, PORT, request, (Call_settimeout (Some 5000) :: recvs ++ closing).
  split; [exact Htr|]. split; [reflexivity|]. split; [reflexivity|].
  split; [|split].
  - constructor; [discriminate|].
    apply Forall_app. split.
    + revert Hr. apply Forall_impl. intros c (t & -> & _). discriminate.
    + destruct Hc as [-> | ->]; repeat constructor; discriminate.
  - destruct (run_after_collect t0 net)
      as (cl & _ & _ & _ & _ & _ & _ & (sk & sk0 & Hsk & Hsk0 & Hloc)).
    destruct (collect_spec 5000 5000 (ready t0 net) ltac:(lia) (ready_opened _ _))
      as (took & rs & _ & _ & _ & _ & _ & _ & _ & _ & _ & Hkeep).
    destruct (Hkeep sk0 Hsk0) as (sk1 & Hsk1 & Hloc1).
    inversion Hsk1; subst sk1.
    exists sk. split; [exact Hsk|]. rewrite Hloc, Hloc1. reflexivity.
  - intros me.
    destruct (run_takes_all t0 [Arrives t0 (me, PORT) request]) as (_ & ->);
      [|reflexivity].
    repeat constructor. cbn. lia.
Qed.


(* ===================================================================== *)
(** ** The timed collection *)
(* ===================================================================== *)

(** C2 (amended). However the datagrams arrive, the collection comes to an
    end, and it ends less than the duration plus one socket timeout after it
    was entered, that is less than twice the duration with the timeout the
    script sets: a receive attempt is bounded by the fixed timeout, not by
    what is left of the duration. *)
Theorem collect_ends_within_duration_plus_timeout D s :
  0 < D -> opened s ->
  fst (collect D D s) <> Hang /\
  now s <= now (snd (collect D D s)) /\
  now (snd (collect D D s)) - now s < D + D.
Proof.
  intros HD Hop.
  destruct (collect_spec D D s ltac:(lia) Hop)
    as (took & recvs & _ & _ & _ & _ & _ & Hend & _ & Hle & Hlt & _).
  repeat split; [|exact Hle|].
  - intros E. rewrite E in Hend. exact Hend.
  - specialize (Hlt ltac:(lia)). lia.
Qed.

Lemma collect_ends_within_duration_plus_timeout_witness :
  let s := ready 0 [Arrives 4999 dev1 [x10; x81]] in
  0 < 5000 /\ opened s /\
  fst (collect 5000 5000 s) <> Hang /\
  now s <= now (snd (collect 5000 5000 s)) /\
  now (snd (collect 5000 5000 s)) - now s < 5000 + 5000.
Proof.
  intros s. split; [lia|]. split; [apply ready_opened|].
  apply (collect_ends_within_duration_plus_timeout 5000 s);
    [lia | apply ready_opened].
Defined.

(** C2 as stated fails: a datagram arrives 1 ms before the deadline, the
    loop test passes, and the next receive attempt, started at 4999 under
    the timeout of 5000, holds the loop until 9999. *)
Lemma collect_outlasts_its_duration :
  let s := ready 0 [Arrives 4999 dev1 [x10; x81]] in
  now (snd (collect 5000 5000 s)) - now s = 9999 /\
  ~ (now (snd (collect 5000 5000 s)) - now s <= 5000) /\
  trace (snd (collect 5000 5000 s)) =
    trace s ++ [Call_settimeout (Some 5000);
                Call_recvfrom 1500 (Some 5000) 0;
                Call_recvfrom 1500 (Some 5000) 4999].
Proof.
  intros s.
  assert (E : now (snd (collect 5000 5000 s)) - now s = 9999)
    by (vm_compute; reflexivity).
  split; [exact E|]. split; [rewrite E; lia|].
  vm_compute. reflexivity.
Qed.








(** C6. A receive failure other than a timeout, one that [recvfrom] reports
    and does not retry, met by the receive attempt that follows datagrams
    which arrived before the deadline, leaves the collection as that error,
    whether it comes before the deadline or while that attempt is still
    waiting after it: nothing more is received, and the lines of the
    datagrams received before it stay printed, one for each. *)
Theorem collect_failure_keeps_lines D s pre t e post :
  0 < D -> opened s ->
  inbox s = pre ++ Fails t e :: post ->
  Forall (arrives_before (now s + D)) pre ->
  t < latest (now s) pre + D ->
  e <> ETIMEDOUT ->
  retried (Some D) e = false ->
  exists printed,
    fst (collect D D s) = Raise (OSError e) /\
    stdout (snd (collect D D s)) = stdout s ++ printed /\
    Forall2 entry_of pre printed /\
    inbox (snd (collect D D s)) = post.
Proof.
  intros HD Hop Hnet Hall Ht Hne Hre.
  destruct (collect_eq D D s Hop) as (s1 & -> & L & Hnow & Hin & Hout & _).
  destruct (receive_loop_failure D (now s) D t e post ltac:(lia) pre s1)
    as (H1 & H2 & H3 & _);
    [congruence | exact L | lia | exact Hall | now rewrite Hnow | exact Hre |].
  exists (lines_of pre). rewrite H3, Hout.
  repeat split; [|apply lines_of_entries;
                   eapply arrives_before_datagrams; exact Hall | exact H2].
  rewrite H1. apply Z.eqb_neq in Hne. now rewrite Hne.
Qed.

Lemma collect_failure_keeps_lines_witness :
  let pre := [Arrives 3000 dev1 [x10; x81]] in
  let post := [Arrives 6100 dev2 [x72]] in
  let s := ready 0 (pre ++ Fails 6000 ECONNREFUSED :: post) in
  0 < 5000 /\ opened s /\
  Forall (arrives_before (now s + 5000)) pre /\
  6000 < latest (now s) pre + 5000 /\
  ECONNREFUSED <> ETIMEDOUT /\
  retried (Some 5000) ECONNREFUSED = false /\
  exists printed,
    fst (collect 5000 5000 s) = Raise (OSError ECONNREFUSED) /\
    stdout (snd (collect 5000 5000 s)) = stdout s ++ printed /\
    Forall2 entry_of pre printed /\
    inbox (snd (collect 5000 5000 s)) = post.
Proof.
  intros pre post s.
  assert (Hall : Forall (arrives_before (now s + 5000)) pre).
  { repeat constructor; cbn; lia. }
  assert (Ht : 6000 < latest (now s) pre + 5000) by (cbn; lia).
  assert (Hne : ECONNREFUSED <> ETIMEDOUT) by discriminate.
  split; [lia|]. split; [apply ready_opened|]. split; [exact Hall|].
  split; [exact Ht|]. split; [exact Hne|]. split; [reflexivity|].
  apply (collect_failure_keeps_lines 5000 s pre 6000 ECONNREFUSED post);
    [lia | apply ready_opened | reflexivity | exact Hall | exact Ht
    | exact Hne | reflexivity].
Defined.

(** C7. Every receive attempt asks for at most 1500 bytes. A datagram
    longer than that, arriving before the deadline after datagrams that did
    so too, is received as its first 1500 bytes and printed like any other;
    no error comes of it: if the collection raises at all, it raises the
    error of a failure the network handed over later. *)
Theorem collect_clips_to_buffer D s pre t from data rest :
  0 < D -> opened s ->
  inbox s = pre ++ Arrives t from data :: rest ->
  Forall (arrives_before (now s + D)) pre ->
  t < now s + D ->
  (1500 < List.length data)%nat ->
  exists more recvs,
    stdout (snd (collect D D s)) =
      stdout s ++ lines_of pre ++ (from, Hex.hex (firstn 1500 data)) :: more /\
    List.length (firstn 1500 data) = 1500%nat /\
    trace (snd (collect D D s)) =
      trace s ++ Call_settimeout (Some D) :: recvs /\
    Forall (fun c => exists t', c = Call_recvfrom 1500 (Some D) t') recvs /\
    (fst (collect D D s) = Ret tt \/
     exists t' e, fst (collect D D s) = Raise (OSError e) /\ In (Fails t' e) rest).
Proof.
  intros HD Hop Hnet Hall Ht Hlen.
  destruct (collect_eq D D s Hop) as (s1 & -> & L & Hnow & Hin & Hout & Htr & _).
  destruct (receive_loop_prefix D (now s) D ltac:(lia)
              (pre ++ [Arrives t from data]) s1 rest)
    as (s2 & recvs1 & -> & H1 & L2 & H3 & H4 & H5 & H6 & _);
    [rewrite Hin, Hnet, <- app_assoc; reflexivity | exact L | lia | |].
  { apply Forall_app. split; [exact Hall|].
    constructor; [split; [exact I | exact Ht] | constructor]. }
  destruct (receive_loop_spec D (now s) D ltac:(lia) rest s2 H1 L2)
    as (took & recvs2 & G1 & G2 & G3 & G4 & _ & G6 & _).
  exists (lines_of took), (recvs1 ++ recvs2).
  repeat split.
  - rewrite G2, H4, Hout, lines_of_app. cbn [lines_of app].
    now rewrite <- !app_assoc.
  - apply firstn_length_le. lia.
  - rewrite G3, H5, Htr, <- !app_assoc. reflexivity.
  - apply Forall_app. split; [revert H6 | revert G4];
      apply Forall_impl; intros c (t' & -> & _); now exists t'.
  - destruct (fst (receive_loop D (now s) s2)) as [[]|[|e|]|];
      cbn [ends] in G6; try contradiction; [now left|].
    right. destruct G6 as (pre' & t' & -> & _).
    exists t', e. split; [reflexivity|].
    rewrite G1, <- app_assoc. apply in_or_app. right. now left.
Qed.

Lemma collect_clips_to_buffer_witness :
  let big := repeat x41 1501 in
  let s := ready 0 ([] ++ Arrives 20 dev1 big :: []) in
  0 < 5000 /\ opened s /\ 20 < now s + 5000 /\
  (1500 < List.length big)%nat /\
  exists more recvs,
    stdout (snd (collect 5000 5000 s)) =
      stdout s ++ lines_of [] ++ (dev1, Hex.hex (firstn 1500 big)) :: more /\
    List.length (firstn 1500 big) = 1500%nat /\
    trace (snd (collect 5000 5000 s)) =
      trace s ++ Call_settimeout (Some 5000) :: recvs /\
    Forall (fun c => exists t', c = Call_recvfrom 1500 (Some 5000) t') recvs /\
    (fst (collect 5000 5000 s) = Ret tt \/
     exists t' e, fst (collect 5000 5000 s) = Raise (OSError e) /\ In (Fails t' e) []).
Proof.
  intros big s.
  assert (Hlen : (1500 < List.length big)%nat).
  { unfold big. rewrite repeat_length. lia. }
  split; [lia|]. split; [apply ready_opened|]. split; [cbn; lia|].
  split; [exact Hlen|].
  apply (collect_clips_to_buffer 5000 s [] 20 dev1 big []);
    [lia | apply ready_opened | reflexivity | constructor | cbn; lia | exact Hlen].
Defined.

(* ===================================================================== *)
(** ** Further properties: the text of the lines *)
(* ===================================================================== *)

Lemma hex_length (b : bytes) :
  String.length (Hex.hex b) = (2 * List.length b)%nat.
Proof.
  induction b as [|x xs IH]; [reflexivity|].
  cbn [Hex.hex String.length List.length]. rewrite IH. lia.
Qed.

Lemma lines_of_clipped evs : Forall clipped_text (lines_of evs).
Proof.
  induction evs as [|[t from data|t e] evs IH]; cbn [lines_of];
    [constructor | | exact IH].
  constructor; [|exact IH].
  exists (firstn 1500 data). cbn [snd].
  repeat split; [apply firstn_le_length | apply hex_length].
Qed.

(** Reading hexadecimal text that starts with the text of [a]. *)
Lemma fromhex_hex_app (a : bytes) (s : string) :
  Hex.fromhex (String.append (Hex.hex a) s) =
  match Hex.fromhex s with
  | Some bs => Some (a ++ bs)
  | None => None
  end.
Proof.
  induction a as [|x xs IH]; cbn [Hex.hex String.append app].
  - destruct (Hex.fromhex s); reflexivity.
  - destruct (hex_byte x) as (Hsp & Htop & Hbot & Hx).
    cbn [Hex.fromhex] in *. rewrite Hsp, Htop, Hbot, Hx, IH.
    destruct (Hex.fromhex s); reflexivity.
Qed.

(** What a whole run takes from the network and prints. *)
Lemma run_spec t0 net :
  exists took,
    net = took ++ inbox (snd (run t0 net)) /\
    stdout (snd (run t0 net)) = lines_of took /\
    ends 5000 took (fst (run t0 net)).
Proof.
  destruct (run_after_collect t0 net) as (closing & -> & _ & -> & -> & _).
  destruct (collect_spec 5000 5000 (ready t0 net) ltac:(lia) (ready_opened _ _))
    as (took & recvs & H1 & H2 & _ & _ & _ & H6 & _).
  exists took. auto.
Qed.

(** X1. The text printed for a message reads back as the message:
    [bytes.fromhex(msg.hex()) == msg], so two different messages never print
    the same text. *)
Theorem hex_round_trip (a b : bytes) :
  Hex.fromhex (Hex.hex a) = Some a /\
  (Hex.hex a = Hex.hex b -> a = b).
Proof.
  split; [apply fromhex_hex|].
  intros E. pose proof (fromhex_hex a) as Ha. rewrite E, fromhex_hex in Ha.
  congruence.
Qed.

Lemma hex_round_trip_witness :
  Hex.hex [x10; x81] = Hex.hex [x10; x81] /\
  Hex.fromhex (Hex.hex [x10; x81]) = Some [x10; x81] /\
  [x10; x81] = [x10; x81].
Proof.
  split; [reflexivity|].
  destruct (hex_round_trip [x10; x81] [x10; x81]) as [Hback Hinj].
  split; [exact Hback | exact (Hinj eq_refl)].
Defined.

(** X2. Whatever the network sends, every line a run prints carries the
    hexadecimal text of at most 1500 bytes: two digits a byte, never more
    than 3000 characters. *)
Theorem printed_text_is_bounded t0 net :
  Forall (fun l => clipped_text l /\ (String.length (snd l) <= 3000)%nat)
         (stdout (snd (run t0 net))).
Proof.
  destruct (run_spec t0 net) as (took & _ & -> & _).
  generalize (lines_of_clipped took). apply Forall_impl.
  intros l Hl. split; [exact Hl|].
  destruct Hl as (b & _ & Hlen & ->). lia.
Qed.

(** X3. [bytes.fromhex] reads groups of bytes separated by a space as the
    bytes of the groups put together, which is how [pkt] is written. *)
Theorem fromhex_groups (a b : bytes) :
  Hex.fromhex (String.append (Hex.hex a) (String " " (Hex.hex b))) =
  Some (a ++ b).
Proof.
  rewrite fromhex_hex_app. cbn [Hex.fromhex].
  replace (Hex.is_space " ") with true by reflexivity.
  now rewrite fromhex_hex.
Qed.

(* ===================================================================== *)
(** ** Further properties: how a run ends *)
(* ===================================================================== *)

Lemma lines_of_failure pre t e : lines_of (pre ++ [Fails t e]) = lines_of pre.
Proof. rewrite lines_of_app. cbn. apply app_nil_r. Qed.

(** The socket after [collect]: the one it was given, with the timeout. *)
Lemma collect_sock T D s sk :
  0 <= T -> sock s = Some sk -> sk_closed sk = false ->
  sock (snd (collect T D s)) =
    Some {| sk_family := sk_family sk; sk_type := sk_type sk;
            so_reuseaddr := so_reuseaddr sk; so_broadcast := so_broadcast sk;
            sk_local := sk_local sk; sk_timeout := Some T;
            sk_closed := sk_closed sk |}.
Proof.
  intros HT Hsk Hopen.
  unfold collect, bind, settimeout, with_sock, time_time.
  rewrite Hsk, Hopen. cbn [set_sock log now].
  match goal with
  | |- sock (snd (receive_loop D ?st ?s1)) = _ =>
      destruct (receive_loop_spec D st T HT (inbox s1) s1 eq_refl)
        as (took & recvs & _ & _ & _ & _ & H5 & _)
  end.
  - eexists. repeat split; cbn; auto.
  - rewrite H5. reflexivity.
Qed.

(** The script after the collection: [close] when it returned, nothing more
    when it raised. *)
Lemma run_outcome t0 net :
  let c := collect 5000 5000 (ready t0 net) in
  (fst c = Ret tt /\ fst (run t0 net) = Ret tt /\
   now (snd (run t0 net)) = now (snd c) /\
   trace (snd (run t0 net)) = trace (snd c) ++ [Call_close] /\
   sock (snd (run t0 net)) = Some (script_socket true)) \/
  (exists e, fst c = Raise (OSError e) /\ run t0 net = (Raise (OSError e), snd c) /\
   sock (snd c) = Some (script_socket false)).
Proof.
  intros c.
  assert (Hsock : sock (snd c) = Some (script_socket false)).
  { exact (collect_sock 5000 5000 (ready t0 net) _ ltac:(lia) eq_refl eq_refl). }
  destruct (collect_spec 5000 5000 (ready t0 net) ltac:(lia) (ready_opened _ _))
    as (took & recvs & _ & _ & _ & _ & _ & Hend & _).
  fold c in Hend.
  rewrite run_eq. unfold bind. fold c.
  destruct c as [[[]|[|e|]|] s1]; cbn [fst snd ends] in *; try contradiction.
  - left. unfold sock_close. rewrite Hsock. cbn. auto.
  - right. exists e. auto.
Qed.

(** X4. A receive failure that is a timeout (errno ETIMEDOUT, which Python
    raises as TimeoutError, the class socket.timeout names) is caught by the
    loop like the timeout of an attempt: met by the receive attempt that
    follows datagrams which arrived before the deadline, it ends the
    collection normally, with their lines printed and nothing after it
    received. *)
Theorem collect_absorbs_timeout_failure D s pre t post :
  0 < D -> opened s ->
  inbox s = pre ++ Fails t ETIMEDOUT :: post ->
  Forall (arrives_before (now s + D)) pre ->
  t < latest (now s) pre + D ->
  exists printed,
    fst (collect D D s) = Ret tt /\
    stdout (snd (collect D D s)) = stdout s ++ printed /\
    Forall2 entry_of pre printed /\
    inbox (snd (collect D D s)) = post.
Proof.
  intros HD Hop Hnet Hall Ht.
  destruct (collect_eq D D s Hop) as (s1 & -> & L & Hnow & Hin & Hout & _).
  destruct (receive_loop_failure D (now s) D t ETIMEDOUT post ltac:(lia) pre s1)
    as (H1 & H2 & H3 & _);
    [congruence | exact L | lia | exact Hall | now rewrite Hnow | |].
  { unfold retried. cbn. apply andb_false_r. }
  exists (lines_of pre). rewrite H3, Hout.
  repeat split; [exact H1 | | exact H2].
  apply lines_of_entries. eapply arrives_before_datagrams. exact Hall.
Qed.

Lemma collect_absorbs_timeout_failure_witness :
  let pre := [Arrives 1000 dev1 [x10; x81]] in
  let post := [Arrives 1300 dev2 [x72]] in
  let s := ready 0 (pre ++ Fails 1200 ETIMEDOUT :: post) in
  0 < 5000 /\ opened s /\
  Forall (arrives_before (now s + 5000)) pre /\
  1200 < latest (now s) pre + 5000 /\
  exists printed,
    fst (collect 5000 5000 s) = Ret tt /\
    stdout (snd (collect 5000 5000 s)) = stdout s ++ printed /\
    Forall2 entry_of pre printed /\
    inbox (snd (collect 5000 5000 s)) = post.
Proof.
  intros pre post s.
  assert (Hall : Forall (arrives_before (now s + 5000)) pre).
  { repeat constructor; cbn; lia. }
  assert (Ht : 1200 < latest (now s) pre + 5000) by (cbn; lia).
  split; [lia|]. split; [apply ready_opened|]. split; [exact Hall|].
  split; [exact Ht|].
  apply (collect_absorbs_timeout_failure 5000 s pre 1200 post);
    [lia | apply ready_opened | reflexivity | exact Hall | exact Ht].
Defined.

(** X5. The script closes the socket exactly when the collection returns:
    then [close] is its last call and the only one; when a receive failure
    is raised the socket is left open. Either way the socket still has the
    options, the address and the timeout the script gave it. *)
Theorem socket_closed_iff_normal_end t0 net :
  exists body,
    Forall (fun c => c <> Call_close) body /\
    ((fst (run t0 net) = Ret tt /\
      trace (snd (run t0 net)) = body ++ [Call_close] /\
      sock (snd (run t0 net)) = Some (script_socket true)) \/
     (exists e,
        fst (run t0 net) = Raise (OSError e) /\
        trace (snd (run t0 net)) = body /\
        sock (snd (run t0 net)) = Some (script_socket false))).
Proof.
  destruct (collect_spec 5000 5000 (ready t0 net) ltac:(lia) (ready_opened _ _))
    as (took & recvs & _ & _ & Htr & Hrecvs & _).
  exists (trace (snd (collect 5000 5000 (ready t0 net)))). split.
  - rewrite Htr. apply Forall_app. split.
    + cbn. repeat constructor; discriminate.
    + constructor; [discriminate|].
      revert Hrecvs. apply Forall_impl. intros c (t & -> & _). discriminate.
  - destruct (run_outcome t0 net) as [(_ & Hres & _ & Htrace & Hsock)
                                     | (e & _ & Hrun & Hsock)].
    + left. auto.
    + right. exists e. rewrite Hrun. auto.
Qed.

(* ===================================================================== *)
(** ** Further properties: how long and how much a run listens *)
(* ===================================================================== *)

(** X6. When the network hands over datagrams only, a run ends normally
    and not before the deadline: it has listened for the whole 5.0
    seconds. *)
Theorem normal_end_not_before_deadline t0 net :
  Forall is_datagram net ->
  fst (run t0 net) = Ret tt /\
  t0 + 5000 <= now (snd (run t0 net)).
Proof.
  intros Hall.
  destruct (run_after_collect t0 net) as (closing & -> & -> & _).
  destruct (collect_eq 5000 5000 (ready t0 net) (ready_opened _ _))
    as (s1 & -> & L & Hnow & Hin & _).
  cbn [ready now inbox] in *.
  apply (receive_loop_full_duration 5000 t0 5000 ltac:(lia) net s1 Hin L);
    [lia | exact Hall].
Qed.

Lemma normal_end_not_before_deadline_witness :
  Forall is_datagram [Arrives 4999 dev1 [x10; x81]] /\
  fst (run 0 [Arrives 4999 dev1 [x10; x81]]) = Ret tt /\
  0 + 5000 <= now (snd (run 0 [Arrives 4999 dev1 [x10; x81]])).
Proof.
  assert (H : Forall is_datagram [Arrives 4999 dev1 [x10; x81]])
    by (repeat constructor).
  split; [exact H|].
  apply (normal_end_not_before_deadline 0 [Arrives 4999 dev1 [x10; x81]] H).
Defined.



(** X8. Every run makes at least one receive attempt, and it prints one line
    for each attempt but possibly the last: the attempts are as many as the
    lines, or one more. *)
Theorem attempts_match_lines t0 net :
  let n := recv_attempts (trace (snd (run t0 net))) in
  let lines := List.length (stdout (snd (run t0 net))) in
  (1 <= n)%nat /\ (lines <= n <= lines + 1)%nat.
Proof.
  destruct (run_after_collect t0 net)
    as (closing & _ & _ & _ & -> & -> & Hcl & _).
  destruct (collect_eq 5000 5000 (ready t0 net) (ready_opened _ _))
    as (s1 & -> & L & Hnow & Hin & Hout & Htr & _).
  destruct (receive_loop_attempts 5000 (now (ready t0 net)) 5000
              ltac:(lia) (inbox s1) s1 eq_refl L)
    as (k & m & Hk & Hm & Hkm & Hone).
  specialize (Hone ltac:(lia)).
  cbv zeta. rewrite recv_attempts_app, Hk, Hm, Htr, Hout, recv_attempts_app.
  assert (Hclose : recv_attempts closing = 0%nat)
    by (destruct Hcl as [-> | ->]; reflexivity).
  rewrite Hclose. cbn. lia.
Qed.

(* ===================================================================== *)
(** ** Further properties: the loop without the socket timeout *)
(* ===================================================================== *)

(** One turn of the loop on a socket without a timeout. *)
Lemma receive_loop_blocking D st s :
  blocking s ->
  now s - st < D ->
  receive_loop D st s =
  match inbox s with
  | [] => (Hang, deliver (now s) [] (log (Call_recvfrom 1500 None (now s)) s))
  | Arrives t from data :: rest =>
      receive_loop D st
        (emit (from, Hex.hex (firstn 1500 data))
           (deliver (Z.max (now s) t) rest
              (log (Call_recvfrom 1500 None (now s)) s)))
  | Fails t errno :: rest =>
      after_attempt D st (log (Call_recvfrom 1500 None (now s)) s)
        (recv_wait 1500 None (now s) (now s) (Fails t errno :: rest))
  end.
Proof.
  intros (sk & Hsk & Hopen & Htmo) Hgo.
  rewrite receive_loop_turn. unfold recvfrom, with_sock.
  rewrite Hsk, Hopen, Htmo. cbn [log inbox now].
  replace (now s - st <? D) with true by (symmetry; apply Z.ltb_lt; lia).
  destruct (inbox s) as [|[t from data|t e] rest]; try reflexivity.
  unfold after_attempt.
  destruct (recv_wait 1500 None (now s) (now s) (Fails t e :: rest))
    as [[[[msg addr]|e'|] t'] q']; [reflexivity| |reflexivity].
  destruct e'; reflexivity.
Qed.

(** X9. It is the socket timeout that lets the loop end on a quiet network.
    Run on a socket without one, the loop prints the datagrams that arrive
    before the deadline and then waits for ever in the next receive attempt:
    the loop test alone does not stop it. *)
Theorem receive_loop_waits_for_ever_without_timeout D st :
  forall net s, inbox s = net -> blocking s ->
  now s < st + D ->
  Forall (arrives_before (st + D)) net ->
  fst (receive_loop D st s) = Hang /\
  stdout (snd (receive_loop D st s)) = stdout s ++ lines_of net.
Proof.
  induction net as [|ev rest IH]; intros s Hin B Hnow Hall;
    rewrite (receive_loop_blocking D st s B ltac:(lia)), Hin.
  - cbn. now rewrite app_nil_r.
  - inversion Hall as [|? ? [Hd Ht] Hrest]; subst.
    destruct ev as [t from data|t e]; [|contradiction].
    cbn [event_time] in Ht.
    set (s2 := emit (from, Hex.hex (firstn 1500 data))
                 (deliver (Z.max (now s) t) rest
                    (log (Call_recvfrom 1500 None (now s)) s))).
    destruct (IH s2 eq_refl B) as (H1 & H2).
    + subst s2. cbn [now emit deliver]. lia.
    + exact Hrest.
    + split; [exact H1|]. rewrite H2. subst s2.
      cbn [stdout emit deliver log lines_of]. now rewrite <- app_assoc.
Qed.

Lemma receive_loop_waits_for_ever_without_timeout_witness :
  let net := [Arrives 10 dev1 [x10; x81]] in
  let s := ready 0 net in
  inbox s = net /\ blocking s /\ now s < 0 + 5000 /\
  Forall (arrives_before (0 + 5000)) net /\
  fst (receive_loop 5000 0 s) = Hang /\
  stdout (snd (receive_loop 5000 0 s)) = stdout s ++ lines_of net.
Proof.
  intros net s.
  assert (B : blocking s) by (eexists; repeat split).
  assert (Hall : Forall (arrives_before (0 + 5000)) net).
  { repeat constructor; cbn; lia. }
  split; [reflexivity|]. split; [exact B|]. split; [cbn; lia|].
  split; [exact Hall|].
  apply (receive_loop_waits_for_ever_without_timeout 5000 0 net s eq_refl B);
    [cbn; lia | exact Hall].
Defined.

(* ===================================================================== *)
(** ** Further properties: failures retried inside a receive attempt *)
(* ===================================================================== *)



